(** * todolist-app backend: the todo store, its tool handlers and the
      widget asset resolver of [src/index.ts], embedded and verified. *)

From Stdlib Require Import Ascii String.
From stdpp Require Import base numbers list strings pretty.

(** ** JavaScript values used by the server *)

(** A JavaScript double quote, as it appears inside the template strings. *)
Definition dq : string := String "034"%char EmptyString.

(** [String(n)] for an integer-valued number: its decimal digits.  The
    numbers rendered this way are list lengths and [nextId], which starts at
    1 and only ever changes through [nextId++].  A JavaScript number counts
    exactly in steps of one up to 2^53; the counter is modelled by [Z]
    within that range. *)
Definition String_ (n : Z) : string := pretty n.

(** Truthiness of a string: only the empty string is falsy. *)
Definition truthy (s : string) : bool :=
  match s with
  | EmptyString => false
  | String _ _ => true
  end.

(** The argument values a tool call can carry for one field. *)
Inductive JsValue :=
| JsUndefined
| JsNull
| JsBool (b : bool)
| JsNumber (n : Z)
| JsString (s : string).

(** [z.string()]: accepts exactly the string values, the empty one included. *)
Definition z_string (v : JsValue) : option string :=
  match v with
  | JsString s => Some s
  | _ => None
  end.

Module Todos.

(** ** In-memory todo storage *)

Record Todo := mkTodo {
  id : string;
  title : string;
  completed : bool;
  createdAt : string
}.

(** The two module-level variables [todos] and [nextId]. *)
Record Store := mkStore {
  todos : list Todo;
  nextId : Z
}.

Definition init : Store := {| todos := []; nextId := 1 |}.

(** ** Tool results *)

Record Stats := mkStats {
  total : Z;
  completedCount : Z;
  pendingCount : Z
}.

(** [structuredContent] of a successful result, one shape per tool. *)
Inductive Structured :=
| SGet (preview : list Todo) (summary : string)
| SAdd (addedTodo : Todo) (preview : list Todo)
| SToggle (toggledTodo : Todo) (preview : list Todo)
| SDelete (deletedTodo : Todo) (preview : list Todo)
| SClear (clearedCount : Z) (preview : list Todo).

(** [_meta.fullData] of a successful result. *)
Inductive FullData :=
| FGet (all : list Todo) (stats : Stats)
| FAdd (all : list Todo) (addedTodo : Todo)
| FToggle (all : list Todo) (toggledTodo : Todo)
| FDelete (all : list Todo) (deletedTodo : Todo)
| FClear (all : list Todo) (clearedCount : Z).

(** What a handler returns.  [isError] is [false] where the source leaves
    the field out. *)
Record ToolResult := mkResult {
  content : string;
  structuredContent : option Structured;
  fullData : option FullData;
  isError : bool
}.

(** [todos.length] as a number. *)
Definition len (l : list Todo) : Z := Z.of_nat (length l).

(** [todos.slice(0, 10)] *)
Definition preview10 (l : list Todo) : list Todo := take 10 l.

Definition not_found (i : string) : ToolResult :=
  {| content := "Todo with ID " +:+ dq +:+ i +:+ dq +:+ " not found.";
     structuredContent := None;
     fullData := None;
     isError := true |}.

(** ** The five handlers, as transitions of the store *)

Definition get_todos (s : Store) : ToolResult * Store :=
  let completedCount := len (filter (λ t, completed t) (todos s)) in
  let pendingCount := (len (todos s) - completedCount)%Z in
  ({| content := "You have " +:+ String_ (len (todos s)) +:+ " todo(s): "
                 +:+ String_ completedCount +:+ " completed, "
                 +:+ String_ pendingCount
                 +:+ " pending. View and manage them in the component below.";
      structuredContent := Some (SGet (preview10 (todos s))
        (String_ (len (todos s)) +:+ " total, " +:+ String_ completedCount
         +:+ " completed, " +:+ String_ pendingCount +:+ " pending"));
      fullData := Some (FGet (todos s)
        {| total := len (todos s);
           completedCount := completedCount;
           pendingCount := pendingCount |});
      isError := false |}, s).

(** [now] is the value of [new Date().toISOString()] at the call. *)
Definition add_todo (title : string) (now : string) (s : Store)
  : ToolResult * Store :=
  let newTodo := {| id := String_ (nextId s);
                    title := title;
                    completed := false;
                    createdAt := now |} in
  let todos' := todos s ++ [newTodo] in
  ({| content := "Added todo: " +:+ dq +:+ title +:+ dq +:+ ". You now have "
                 +:+ String_ (len todos') +:+ " todo(s).";
      structuredContent := Some (SAdd newTodo (preview10 todos'));
      fullData := Some (FAdd todos' newTodo);
      isError := false |},
   {| todos := todos'; nextId := (nextId s + 1)%Z |}).

(** [todo.completed = !todo.completed] on the record found. *)
Definition flip (t : Todo) : Todo :=
  {| id := id t; title := title t;
     completed := negb (completed t); createdAt := createdAt t |}.

Definition toggle_todo (i : string) (s : Store) : ToolResult * Store :=
  match list_find (λ t, id t = i) (todos s) with
  | None => (not_found i, s)
  | Some (k, t) =>
      let todo := flip t in
      let todos' := <[k := todo]> (todos s) in
      ({| content := "Marked " +:+ dq +:+ title todo +:+ dq +:+ " as "
                     +:+ (if completed todo then "completed" else "pending")
                     +:+ ".";
          structuredContent := Some (SToggle todo (preview10 todos'));
          fullData := Some (FToggle todos' todo);
          isError := false |},
       {| todos := todos'; nextId := nextId s |})
  end.

Definition delete_todo (i : string) (s : Store) : ToolResult * Store :=
  match list_find (λ t, id t = i) (todos s) with
  | None => (not_found i, s)
  | Some (todoIndex, deletedTodo) =>
      let todos' := delete todoIndex (todos s) in
      ({| content := "Deleted todo: " +:+ dq +:+ title deletedTodo +:+ dq
                     +:+ ". You now have " +:+ String_ (len todos')
                     +:+ " todo(s).";
          structuredContent := Some (SDelete deletedTodo (preview10 todos'));
          fullData := Some (FDelete todos' deletedTodo);
          isError := false |},
       {| todos := todos'; nextId := nextId s |})
  end.

Definition clear_completed (s : Store) : ToolResult * Store :=
  let completedCount := len (filter (λ t, completed t) (todos s)) in
  let todos' := filter (λ t, ¬ completed t) (todos s) in
  ({| content := "Cleared " +:+ String_ completedCount
                 +:+ " completed todo(s). You now have "
                 +:+ String_ (len todos') +:+ " todo(s) remaining.";
      structuredContent := Some (SClear completedCount (preview10 todos'));
      fullData := Some (FClear todos' completedCount);
      isError := false |},
   {| todos := todos'; nextId := nextId s |}).

(** ** Tool calls as the server receives them *)

(** The outcome of a call: the arguments fail the tool's [inputSchema]
    (the handler is not run), or the handler's result. *)
Inductive Outcome :=
| InvalidParams
| Handled (r : ToolResult).

(** [add_todo] with [inputSchema = { title: z.string() }]. *)
Definition call_add_todo (arg : JsValue) (now : string) (s : Store)
  : Outcome * Store :=
  match z_string arg with
  | Some title => let '(r, s') := add_todo title now s in (Handled r, s')
  | None => (InvalidParams, s)
  end.

(** Well-typed calls and runs of the server on a sequence of them. *)
Inductive Call :=
| CGet
| CAdd (title now : string)
| CToggle (i : string)
| CDelete (i : string)
| CClear.

Definition handle (c : Call) (s : Store) : ToolResult * Store :=
  match c with
  | CGet => get_todos s
  | CAdd title now => add_todo title now s
  | CToggle i => toggle_todo i s
  | CDelete i => delete_todo i s
  | CClear => clear_completed s
  end.

Fixpoint run (cs : list Call) (s : Store) : list ToolResult * Store :=
  match cs with
  | [] => ([], s)
  | c :: cs =>
      let '(r, s1) := handle c s in
      let '(rs, s2) := run cs s1 in
      (r :: rs, s2)
  end.

(** The identifier a result reports as newly assigned, if it is an add. *)
Definition assigned_id (r : ToolResult) : option string :=
  match structuredContent r with
  | Some (SAdd t _) => Some (id t)
  | _ => None
  end.

Definition assigned_ids (rs : list ToolResult) : list string :=
  omap assigned_id rs.

(** Readers of the other operation-specific fields of a result. *)
Definition toggled_of (r : ToolResult) : option Todo :=
  match structuredContent r with
  | Some (SToggle t _) => Some t
  | _ => None
  end.

Definition cleared_of (r : ToolResult) : option Z :=
  match structuredContent r with
  | Some (SClear n _) => Some n
  | _ => None
  end.

Definition stats_of (r : ToolResult) : option Stats :=
  match fullData r with
  | Some (FGet _ st) => Some st
  | _ => None
  end.

(** The identifiers in the store are among those handed out so far, in
    the order they were handed out. *)
Definition ids_from_counter (s : Store) : Prop :=
  (1 ≤ nextId s)%Z
  ∧ (id <$> todos s) `sublist_of` (String_ <$> seqZ 1 (nextId s - 1)).

Definition is_add (c : Call) : bool :=
  match c with CAdd _ _ => true | _ => false end.

Definition count_adds (cs : list Call) : nat :=
  length (List.filter is_add cs).

End Todos.

Module Widget.

(** ** Cache for widget file names *)

Record WidgetFiles := mkFiles {
  js : string;
  css : string
}.

(** The module-level variables [widgetFiles] and [lastFetch]. *)
Record Cache := mkCache {
  widgetFiles : WidgetFiles;
  lastFetch : Z
}.

Definition init : Cache :=
  {| widgetFiles := {| js := EmptyString; css := EmptyString |};
     lastFetch := 0 |}.

Definition CACHE_TTL : Z := 60000.

(** ** The world a request runs in, and what it does to it *)

(** [clock] is what [Date.now()] returns during the request; [remote url]
    is the text that [fetch(url)] followed by [response.text()] yields, or
    [None] when either of them throws. *)
Record World := mkWorld {
  clock : Z;
  remote : string → option string
}.

Inductive Event :=
| Fetch (url : string)
| ConsoleLog (files : WidgetFiles)
| ConsoleError (msg : string).

(** Computations over the cache that read the world and emit events.  A
    request is run to its end before the next one starts. *)
Definition M (A : Type) : Type := World → Cache → A * Cache * list Event.

#[export] Instance M_ret : MRet M := λ A a _ c, (a, c, []).

#[export] Instance M_bind : MBind M := λ A B f m w c,
  let '(a, c1, e1) := m w c in
  let '(b, c2, e2) := f a w c1 in
  (b, c2, e1 ++ e2).

Definition date_now : M Z := λ w c, (clock w, c, []).

Definition fetch_text (url : string) : M (option string) :=
  λ w c, (remote w url, c, [Fetch url]).

Definition emit (e : Event) : M unit := λ _ c, (tt, c, [e]).

Definition read : M Cache := λ _ c, (c, c, []).

Definition set_js (f : string) : M unit := λ _ c,
  (tt, {| widgetFiles := {| js := f; css := css (widgetFiles c) |};
          lastFetch := lastFetch c |}, []).

Definition set_css (f : string) : M unit := λ _ c,
  (tt, {| widgetFiles := {| js := js (widgetFiles c); css := f |};
          lastFetch := lastFetch c |}, []).

Definition set_lastFetch (t : Z) : M unit := λ _ c,
  (tt, {| widgetFiles := widgetFiles c; lastFetch := t |}, []).

(** [if (m) f(m[1])] *)
Definition when_match (m : option string) (f : string → M unit) : M unit :=
  match m with
  | Some name => f name
  | None => mret tt
  end.

(** ** The two filename patterns *)

(** [[a-f0-9]] *)
Definition is_hex (a : ascii) : bool :=
  let n := nat_of_ascii a in
  (48 <=? n) && (n <=? 57) || (97 <=? n) && (n <=? 102).

(** The rest of [s] after the literal [p], when [s] starts with it. *)
Fixpoint after (p s : string) : option string :=
  match p, s with
  | EmptyString, _ => Some s
  | String a p, String b s => if Ascii.eqb a b then after p s else None
  | String _ _, EmptyString => None
  end.

(** The longest run of [[a-f0-9]] at the start of [s], and what follows. *)
Fixpoint hex_run (s : string) : string * string :=
  match s with
  | String a t =>
      if is_hex a then let '(h, r) := hex_run t in (String a h, r)
      else (EmptyString, s)
  | EmptyString => (EmptyString, EmptyString)
  end.

(** The group [(widget(?:-[a-f0-9]+)?\.ext)] followed by a double quote, at
    the start of [s]: the text of the group. *)
Definition widget_name (ext : string) (s : string) : option string :=
  rest ← after "widget" s;
  let tail := "." +:+ ext in
  let plain := _ ← after (tail +:+ dq) rest; Some ("widget" +:+ tail) in
  match rest with
  | String "-" r =>
      let '(h, r') := hex_run r in
      if truthy h then
        match after (tail +:+ dq) r' with
        | Some _ => Some ("widget-" +:+ h +:+ tail)
        | None => plain
        end
      else plain
  | _ => plain
  end.

(** [html.match(re)] for the pattern [re] that reads [attr], an equals sign,
    a double quote, a slash, the group above and a double quote: group 1 of
    the leftmost match. *)
Fixpoint match_widget (attr ext : string) (html : string) : option string :=
  match after (attr +:+ "=" +:+ dq +:+ "/") html ≫= widget_name ext with
  | Some name => Some name
  | None =>
      match html with
      | String _ t => match_widget attr ext t
      | EmptyString => None
      end
  end.

Definition jsMatch : string → option string := match_widget "src" "js".
Definition cssMatch : string → option string := match_widget "href" "css".

(** ** HTTP responses of the two asset routes *)

(** [contentType] is the header the handler sets itself, if any. *)
Record Response := mkResponse {
  status : Z;
  contentType : option string;
  body : string
}.

Section resolver.

(** [process.env.WIDGET_URL || ''] *)
Variable WIDGET_URL : string.

Definition index_url : string := WIDGET_URL +:+ "/index.html".

(** The guard of the early return. *)
Definition fresh (c : Cache) (now : Z) : bool :=
  truthy (js (widgetFiles c)) && truthy (css (widgetFiles c))
  && bool_decide (now - lastFetch c < CACHE_TTL)%Z.

Definition discoverWidgetFiles : M WidgetFiles :=
  now ← date_now;
  c ← read;
  if fresh c now then mret (widgetFiles c)
  else
    html ← fetch_text index_url;
    match html with
    | Some html =>
        when_match (jsMatch html) set_js;;
        when_match (cssMatch html) set_css;;
        set_lastFetch now;;
        c ← read;
        emit (ConsoleLog (widgetFiles c))
    | None => emit (ConsoleError "Error discovering widget files:")
    end;;
    c ← read;
    mret (widgetFiles c).

Definition get_widget_css : M Response :=
  files ← discoverWidgetFiles;
  if negb (truthy (css files)) then
    mret {| status := 404; contentType := None;
            body := "/* Widget CSS not found */" |}
  else
    r ← fetch_text (WIDGET_URL +:+ "/" +:+ css files);
    match r with
    | Some text =>
        mret {| status := 200; contentType := Some "text/css"; body := text |}
    | None =>
        emit (ConsoleError "Error fetching widget CSS:");;
        mret {| status := 500; contentType := None;
                body := "/* Error loading widget CSS */" |}
    end.

Definition get_widget_js : M Response :=
  files ← discoverWidgetFiles;
  if negb (truthy (js files)) then
    mret {| status := 404; contentType := None;
            body := "// Widget JS not found" |}
  else
    r ← fetch_text (WIDGET_URL +:+ "/" +:+ js files);
    match r with
    | Some text =>
        mret {| status := 200; contentType := Some "application/javascript";
                body := text |}
    | None =>
        emit (ConsoleError "Error fetching widget JS:");;
        mret {| status := 500; contentType := None;
                body := "// Error loading widget JS" |}
    end.

(** The network requests among the events of a computation. *)
Definition fetches (es : list Event) : list string :=
  omap (λ e, match e with Fetch url => Some url | _ => None end) es.



(** ** Sequences of asset requests *)

Inductive Route := RouteCss | RouteJs.

Definition serve (rt : Route) : M Response :=
  match rt with
  | RouteCss => get_widget_css
  | RouteJs => get_widget_js
  end.

(** Requests served one after the other, each in the world it arrives in. *)
Fixpoint serve_all (reqs : list (Route * World)) (c : Cache)
  : list (Response * list Event) * Cache :=
  match reqs with
  | [] => ([], c)
  | (rt, w) :: reqs =>
      let '(r, c1, es) := serve rt w c in
      let '(outs, c2) := serve_all reqs c1 in
      ((r, es) :: outs, c2)
  end.

End resolver.



(** ** Sample index pages and worlds *)

Definition origin : string := "https://widget.example".

Definition script_tag : string :=
  "<script type=" +:+ dq +:+ "module" +:+ dq +:+ " src=" +:+ dq
  +:+ "/widget-abc123.js" +:+ dq +:+ "></script>".

Definition link_tag : string :=
  "<link rel=" +:+ dq +:+ "stylesheet" +:+ dq +:+ " href=" +:+ dq
  +:+ "/widget-0a1b.css" +:+ dq +:+ ">".

(** A world whose origin serves the given index page and the two assets. *)
Definition world_at (now : Z) (page : string) : World :=
  {| clock := now;
     remote := λ url,
       if String.eqb url (origin +:+ "/index.html") then Some page
       else if String.eqb url (origin +:+ "/widget-abc123.js")
            then Some "console.log(1)"
       else if String.eqb url (origin +:+ "/widget-0a1b.css")
            then Some "body{}"
       else None |}.

(** A world whose origin cannot be reached. *)
Definition world_down (now : Z) : World :=
  {| clock := now; remote := λ _, None |}.

(** A world in which the index page cannot be fetched but the script
    can. *)
Definition world_index_down (now : Z) : World :=
  {| clock := now;
     remote := λ url,
       if String.eqb url (origin +:+ "/widget-abc123.js")
       then Some "console.log(1)" else None |}.

(** The cache after a discovery at time 1000 that found both names, and
    after one that found the script only. *)
Definition cache_both : Cache :=
  {| widgetFiles := {| js := "widget-abc123.js"; css := "widget-0a1b.css" |};
     lastFetch := 1000 |}.

Definition cache_script_only : Cache :=
  {| widgetFiles := {| js := "widget-abc123.js"; css := EmptyString |};
     lastFetch := 1000 |}.

End Widget.

Module Views.
Import Todos.

(** ** More readers of a tool result *)

(** [structuredContent.todos], the preview. *)
Definition preview_of (r : ToolResult) : option (list Todo) :=
  match structuredContent r with
  | Some (SGet p _) | Some (SAdd _ p) | Some (SToggle _ p)
  | Some (SDelete _ p) | Some (SClear _ p) => Some p
  | None => None
  end.

(** [_meta.fullData.todos], the whole list. *)
Definition all_of (r : ToolResult) : option (list Todo) :=
  match fullData r with
  | Some (FGet l _) | Some (FAdd l _) | Some (FToggle l _)
  | Some (FDelete l _) | Some (FClear l _) => Some l
  | None => None
  end.

Definition deleted_of (r : ToolResult) : option Todo :=
  match structuredContent r with
  | Some (SDelete t _) => Some t
  | _ => None
  end.

(** The fields of a record that are written when it is created only. *)
Definition fixed_fields (t : Todo) : string * string * string :=
  (id t, title t, createdAt t).

(** The numbers of completed and of pending records. *)
Definition count_completed (l : list Todo) : nat :=
  length (filter (λ t, completed t) l).

Definition count_pending (l : list Todo) : nat :=
  length (filter (λ t, ¬ completed t) l).

End Views.

Module Patterns.
Import Widget.

(** ** What the two filename patterns describe *)

Fixpoint all_hex (h : string) : bool :=
  match h with
  | EmptyString => true
  | String a t => is_hex a && all_hex t
  end.

(** [name] reads [widget.ext], or [widget-], hexadecimal digits (at least
    one), [.ext]. *)
Definition hashed_name (ext name : string) : Prop :=
  name = "widget." +:+ ext
  ∨ ∃ h, h ≠ EmptyString ∧ all_hex h = true
         ∧ name = "widget-" +:+ h +:+ "." +:+ ext.

(** [html] holds the attribute [attr] with the quoted value [/name]. *)
Definition occurs_as (attr name html : string) : Prop :=
  ∃ pre post,
    html = pre +:+ attr +:+ "=" +:+ dq +:+ "/" +:+ name +:+ dq +:+ post.

(** The URLs the asset routes may ask the origin for. *)
Definition asset_url (WIDGET_URL url : string) : Prop :=
  url = index_url WIDGET_URL
  ∨ ∃ name, (hashed_name "js" name ∨ hashed_name "css" name)
            ∧ url = WIDGET_URL +:+ "/" +:+ name.

(** The filename, the Content-Type and the two placeholder bodies of each
    route. *)
Definition asset_name (rt : Route) (files : WidgetFiles) : string :=
  match rt with
  | RouteCss => css files
  | RouteJs => js files
  end.

Definition mime (rt : Route) : string :=
  match rt with
  | RouteCss => "text/css"
  | RouteJs => "application/javascript"
  end.

Definition not_found_body (rt : Route) : string :=
  match rt with
  | RouteCss => "/* Widget CSS not found */"
  | RouteJs => "// Widget JS not found"
  end.

Definition error_body (rt : Route) : string :=
  match rt with
  | RouteCss => "/* Error loading widget CSS */"
  | RouteJs => "// Error loading widget JS"
  end.

(** A cached filename is unknown or has the shape of its pattern. *)
Definition names_well_formed (c : Cache) : Prop :=
  (js (widgetFiles c) = EmptyString ∨ hashed_name "js" (js (widgetFiles c)))
  ∧ (css (widgetFiles c) = EmptyString
     ∨ hashed_name "css" (css (widgetFiles c))).

End Patterns.

Module Cors.
Import (hints) Widget.

(** ** The CORS middleware *)

(** [s.includes(sub)] *)
Fixpoint includes (sub s : string) : bool :=
  match Widget.after sub s with
  | Some _ => true
  | None =>
      match s with
      | String _ t => includes sub t
      | EmptyString => false
      end
  end.

(** [sub] occurs somewhere in [s]. *)
Definition contains (sub s : string) : Prop :=
  ∃ pre post, s = pre +:+ sub +:+ post.

(** What the middleware reads of a request: [req.method] and
    [req.headers.origin], which is [undefined] when the header is absent. *)
Record Request := mkRequest {
  method : string;
  origin : option string
}.

(** The condition under which the origin is reflected. *)
Definition origin_allowed (o : option string) : bool :=
  match o with
  | None => false
  | Some origin =>
      truthy origin
      && (String.eqb origin "https://chatgpt.com"
          || String.eqb origin "https://chat.openai.com"
          || includes "chatgpt-com" origin
             && includes "oaiusercontent.com" origin)
  end.

(** The headers set by the calls to [res.header], in order. *)
Definition cors_headers (req : Request) : list (string * string) :=
  (if origin_allowed (origin req)
   then [("Access-Control-Allow-Origin", default EmptyString (origin req))]
   else [])
  ++ [("Access-Control-Allow-Methods", "GET, POST, OPTIONS");
      ("Access-Control-Allow-Headers", "Content-Type")].

(** How the middleware ends: [res.sendStatus(code)], or [next()] and what
    the rest of the chain answers. *)
Inductive Verdict (A : Type) :=
| SendStatus (code : Z)
| Next (a : A).
Arguments SendStatus {A} code.
Arguments Next {A} a.

(** The middleware in front of a handler [next]. *)
Definition cors {A} (req : Request) (next : Widget.M A)
  : Widget.M (list (string * string) * Verdict A) :=
  let headers := cors_headers req in
  if String.eqb (method req) "OPTIONS" then mret (headers, SendStatus 200)
  else a ← next; mret (headers, Next a).

End Cors.

(** * Properties of the todo store *)

Section todo_store.
Import Todos.

Implicit Types (s : Store) (t : Todo) (i : string) (cs : list Call).

(** ** Lookup by identifier *)

Lemma find_absent s i :
  i ∉ id <$> todos s → list_find (λ t, id t = i) (todos s) = None.
Proof.
  intros Hi. apply list_find_None, Forall_forall. intros t Ht Heq.
  apply Hi, list_elem_of_fmap. by exists t.
Qed.

Lemma find_present s i :
  i ∈ id <$> todos s →
  ∃ k t, list_find (λ t, id t = i) (todos s) = Some (k, t).
Proof.
  intros (t & -> & Ht)%list_elem_of_fmap.
  destruct (list_find_elem_of (λ t', id t' = id t) (todos s) t Ht eq_refl)
    as [[k t'] Hfind].
  by exists k, t'.
Qed.

(** Flipping the record found keeps it the first one with that identifier. *)
Lemma find_after_flip (l : list Todo) i k t :
  list_find (λ t, id t = i) l = Some (k, t) →
  list_find (λ t, id t = i) (<[k := flip t]> l) = Some (k, flip t).
Proof.
  intros (Hk & Hid & Hmin)%list_find_Some. apply list_find_Some.
  split_and!.
  - apply list_lookup_insert_eq. by eapply lookup_lt_Some.
  - done.
  - intros j y Hj Hlt. rewrite list_lookup_insert_ne in Hj by lia. eauto.
Qed.

Lemma Store_eta s : {| todos := todos s; nextId := nextId s |} = s.
Proof. by destruct s. Qed.

Lemma flip_flip t : flip (flip t) = t.
Proof. destruct t as [? ? []]; reflexivity. Qed.

(** ** Unknown identifiers *)

(** C2: for every store and every identifier that no record of the store
    bears, [toggle_todo] and [delete_todo] both return (they do not throw)
    the result flagged [isError] whose text names the identifier, and the
    store after the call is the store before it: same records, same order,
    same counter. *)
Theorem unknown_id_is_soft_failure s i :
  i ∉ id <$> todos s →
  toggle_todo i s = (not_found i, s)
  ∧ delete_todo i s = (not_found i, s)
  ∧ isError (not_found i) = true
  ∧ content (not_found i) = "Todo with ID " +:+ dq +:+ i +:+ dq +:+ " not found."
  ∧ structuredContent (not_found i) = None.
Proof.
  intros Hi. unfold toggle_todo, delete_todo.
  rewrite (find_absent s i Hi). done.
Qed.

Lemma unknown_id_is_soft_failure_witness :
  let s := (run [CAdd "Buy milk" "t1"; CAdd "Walk dog" "t2"] init).2 in
  toggle_todo "7" s = (not_found "7", s)
  ∧ delete_todo "7" s = (not_found "7", s)
  ∧ isError (not_found "7") = true
  ∧ content (not_found "7") = "Todo with ID " +:+ dq +:+ "7" +:+ dq +:+ " not found."
  ∧ structuredContent (not_found "7") = None.
Proof.
  intros s. apply (unknown_id_is_soft_failure s "7").
  apply (bool_decide_unpack _). vm_compute. exact I.
Defined.

(** ** Toggling *)

(** C4: when some record bears the identifier, one [toggle_todo] replaces the
    first such record, at its position, by a record with the same [id],
    [title] and [createdAt] and the opposite [completed]; every other
    position, the length and the counter are untouched.  A second
    [toggle_todo] with the same identifier gives back the starting store and
    reports the record with its original [completed] value. *)
Theorem toggle_is_involution s i :
  i ∈ id <$> todos s →
  ∃ k t t' r1 s1 r2,
    toggle_todo i s = (r1, s1) ∧ toggle_todo i s1 = (r2, s)
    ∧ todos s !! k = Some t ∧ id t = i
    ∧ todos s1 !! k = Some t'
    ∧ id t' = id t ∧ title t' = title t ∧ createdAt t' = createdAt t
    ∧ completed t' = negb (completed t)
    ∧ (∀ j, j ≠ k → todos s1 !! j = todos s !! j)
    ∧ length (todos s1) = length (todos s)
    ∧ nextId s1 = nextId s
    ∧ isError r1 = false ∧ toggled_of r1 = Some t'
    ∧ isError r2 = false ∧ toggled_of r2 = Some t.
Proof.
  intros Hi. destruct (find_present s i Hi) as (k & t & Hfind).
  pose proof Hfind as (Hk & Hid & _)%list_find_Some.
  pose proof (find_after_flip _ _ _ _ Hfind) as Hfind'.
  exists k, t, (flip t). unfold toggle_todo at 1. rewrite Hfind.
  eexists _, _, _. split; [reflexivity|]. split.
  - unfold toggle_todo. cbn [todos nextId]. rewrite Hfind'.
    rewrite list_insert_insert_eq, flip_flip, list_insert_id by done.
    by rewrite Store_eta.
  - cbn. split_and!; try done.
    + apply list_lookup_insert_eq. by eapply lookup_lt_Some.
    + intros j Hj. by apply list_lookup_insert_ne.
    + apply length_insert.
Qed.

Lemma toggle_is_involution_witness :
  let s := (run [CAdd "Buy milk" "t1"; CAdd "Walk dog" "t2"] init).2 in
  ∃ k t t' r1 s1 r2,
    toggle_todo "2" s = (r1, s1) ∧ toggle_todo "2" s1 = (r2, s)
    ∧ todos s !! k = Some t ∧ id t = "2"
    ∧ todos s1 !! k = Some t'
    ∧ id t' = id t ∧ title t' = title t ∧ createdAt t' = createdAt t
    ∧ completed t' = negb (completed t)
    ∧ (∀ j, j ≠ k → todos s1 !! j = todos s !! j)
    ∧ length (todos s1) = length (todos s)
    ∧ nextId s1 = nextId s
    ∧ isError r1 = false ∧ toggled_of r1 = Some t'
    ∧ isError r2 = false ∧ toggled_of r2 = Some t.
Proof.
  intros s. apply (toggle_is_involution s "2").
  apply (bool_decide_unpack _). vm_compute. exact I.
Defined.

(** ** Clearing completed records *)

Lemma filter_pending_again (l : list Todo) :
  filter (λ t, ¬ completed t) (filter (λ t, ¬ completed t) l)
  = filter (λ t, ¬ completed t) l.
Proof.
  rewrite list_filter_filter. apply list_filter_iff. tauto.
Qed.

Lemma no_completed_left (l : list Todo) :
  filter (λ t, completed t) (filter (λ t, ¬ completed t) l) = [].
Proof.
  induction l as [|t l IH]; [done|].
  rewrite (filter_cons (λ t, ¬ completed t)). case_decide; [|done].
  rewrite filter_cons_False; [done|tauto].
Qed.

Lemma completed_plus_pending (l : list Todo) :
  length (filter (λ t, completed t) l)
  + length (filter (λ t, ¬ completed t) l) = length l.
Proof.
  rewrite <- length_app. apply Permutation_length, filter_app_complement.
Qed.

(** C3: for every store, [clear_completed] leaves the records that are not
    completed, each of them and in their original order, and no completed
    one; the [clearedCount] it reports is the number of completed records,
    which is the number of records removed; the counter is untouched.  Called
    again at once it reports 0 and leaves the store as it is. *)
Theorem clear_completed_removes_exactly_completed s :
  ∃ r s' r2,
    clear_completed s = (r, s') ∧ clear_completed s' = (r2, s')
    ∧ todos s' = filter (λ t, ¬ completed t) (todos s)
    ∧ todos s' `sublist_of` todos s
    ∧ (∀ t, t ∈ todos s' ↔ t ∈ todos s ∧ completed t = false)
    ∧ cleared_of r
      = Some (Z.of_nat (length (filter (λ t, completed t) (todos s))))
    ∧ cleared_of r
      = Some (Z.of_nat (length (todos s)) - Z.of_nat (length (todos s')))%Z
    ∧ nextId s' = nextId s
    ∧ isError r = false
    ∧ cleared_of r2 = Some 0%Z.
Proof.
  eexists _, _, _. split; [reflexivity|].
  unfold clear_completed. cbn [todos nextId cleared_of structuredContent isError].
  rewrite filter_pending_again, no_completed_left.
  split; [reflexivity|]. split_and!; try done.
  - apply sublist_filter.
  - intros t. rewrite list_elem_of_filter.
    destruct (completed t); cbn; intuition congruence.
  - f_equal. pose proof (completed_plus_pending (todos s)). unfold len. lia.
Qed.

(** ** Statistics *)

(** C5: for every store, the statistics in the full data of [get_todos]
    reconcile: [total] is the number of records, [completed] the number of
    records whose [completed] is true, [pending] the number of the others,
    and [pending + completed = total]; the store is not changed. *)
Theorem get_todos_stats_reconcile s :
  ∃ st,
    stats_of (get_todos s).1 = Some st
    ∧ total st = Z.of_nat (length (todos s))
    ∧ completedCount st
      = Z.of_nat (length (filter (λ t, completed t = true) (todos s)))
    ∧ pendingCount st
      = Z.of_nat (length (filter (λ t, completed t = false) (todos s)))
    ∧ (pendingCount st + completedCount st = total st)%Z
    ∧ (get_todos s).2 = s.
Proof.
  eexists. split; [reflexivity|]. cbn. unfold len.
  pose proof (completed_plus_pending (todos s)) as Hsum.
  assert (filter (λ t, completed t = true) (todos s)
          = filter (λ t, completed t) (todos s)) as ->.
  { apply list_filter_iff. intros t. by destruct (completed t). }
  assert (filter (λ t, completed t = false) (todos s)
          = filter (λ t, ¬ completed t) (todos s)) as ->.
  { apply list_filter_iff. intros t. destruct (completed t); cbn; intuition congruence. }
  split_and!; try done; lia.
Qed.

(** ** Identifiers *)

Lemma ids_after_flip (l : list Todo) k t :
  l !! k = Some t → id <$> <[k := flip t]> l = id <$> l.
Proof.
  intros Hk. rewrite list_fmap_insert. apply list_insert_id.
  by rewrite list_lookup_fmap, Hk.
Qed.

(** What one call does to the counter and to the identifiers in the store:
    an add hands out [String(nextId)] and steps the counter; every other
    call hands out nothing, keeps the counter and adds no identifier. *)
Lemma handle_ids c s :
  if is_add c then
    assigned_id (handle c s).1 = Some (String_ (nextId s))
    ∧ nextId (handle c s).2 = (nextId s + 1)%Z
    ∧ id <$> todos (handle c s).2 = (id <$> todos s) ++ [String_ (nextId s)]
  else
    assigned_id (handle c s).1 = None
    ∧ nextId (handle c s).2 = nextId s
    ∧ (id <$> todos (handle c s).2) `sublist_of` (id <$> todos s).
Proof.
  destruct c as [|ttl now|i|i|]; cbn [is_add handle].
  - done.
  - cbn. by rewrite fmap_app.
  - unfold toggle_todo.
    destruct (list_find _ _) as [[k t]|] eqn:Hfind; [|done].
    apply list_find_Some in Hfind as (Hk & _ & _). cbn.
    by rewrite ids_after_flip.
  - unfold delete_todo.
    destruct (list_find _ _) as [[k t]|] eqn:Hfind; [|done].
    cbn. split_and!; [done..|]. apply fmap_sublist, sublist_delete.
  - cbn. split_and!; [done..|]. apply fmap_sublist, sublist_filter.
Qed.

Lemma run_cons c cs s :
  run (c :: cs) s
  = ((handle c s).1 :: (run cs (handle c s).2).1, (run cs (handle c s).2).2).
Proof.
  cbn [run]. destruct (handle c s) as [r s1]. cbn [fst snd].
  by destruct (run cs s1).
Qed.

Lemma assigned_ids_cons r rs :
  assigned_ids (r :: rs)
  = match assigned_id r with
    | Some i => i :: assigned_ids rs
    | None => assigned_ids rs
    end.
Proof. reflexivity. Qed.

Lemma count_adds_cons c cs :
  count_adds (c :: cs) = if is_add c then S (count_adds cs) else count_adds cs.
Proof. unfold count_adds. cbn. by destruct (is_add c). Qed.

(** The identifiers handed out along a run started in any store. *)
Lemma run_assigned_ids cs s :
  assigned_ids (run cs s).1
  = String_ <$> seqZ (nextId s) (Z.of_nat (count_adds cs))
  ∧ nextId (run cs s).2 = (nextId s + Z.of_nat (count_adds cs))%Z.
Proof.
  revert s. induction cs as [|c cs IH]; intros s.
  - cbn. split; [done|lia].
  - rewrite run_cons. cbn [fst snd]. destruct (IH (handle c s).2) as [IHa IHn].
    pose proof (handle_ids c s) as Hc.
    rewrite assigned_ids_cons, count_adds_cons. destruct (is_add c).
    + destruct Hc as (-> & Hn & _). rewrite IHa, IHn, Hn.
      rewrite (seqZ_cons (nextId s)) by lia. split; [|lia].
      rewrite fmap_cons. do 3 f_equal; lia.
    + destruct Hc as (-> & Hn & _). by rewrite IHa, IHn, Hn.
Qed.

Lemma handle_ids_from_counter c s :
  ids_from_counter s → ids_from_counter (handle c s).2.
Proof.
  intros [Hge Hsub]. pose proof (handle_ids c s) as Hc. unfold ids_from_counter.
  destruct (is_add c).
  - destruct Hc as (_ & -> & ->). split; [lia|].
    replace (nextId s + 1 - 1)%Z with (Z.of_nat (S (Z.to_nat (nextId s - 1))))
      by lia.
    rewrite seqZ_S, fmap_app, Z2Nat.id by lia.
    apply sublist_app; [done|].
    by replace (1 + (nextId s - 1))%Z with (nextId s) by lia.
  - destruct Hc as (_ & -> & Hsub'). split; [done|]. by etrans.
Qed.

Lemma run_ids_from_counter cs s :
  ids_from_counter s → ids_from_counter (run cs s).2.
Proof.
  revert s. induction cs as [|c cs IH]; intros s Hs; [done|].
  rewrite run_cons. by apply IH, handle_ids_from_counter.
Qed.

(** C1: along every sequence of calls from the initial empty store (adds,
    with toggles, deletions and clears anywhere between them), the
    identifiers handed out by the adds are [String(1)], [String(2)], ... in
    this order: integers rendered as strings, starting at 1 and strictly
    increasing.  No identifier is handed out twice, whatever was deleted
    in between, and the records left in the store bear pairwise distinct
    identifiers, all of them handed out by an add of the run. *)
Theorem add_ids_strictly_increase_and_are_never_reused cs :
  let ids := assigned_ids (run cs init).1 in
  ids = String_ <$> seqZ 1 (Z.of_nat (count_adds cs))
  ∧ head ids = (if decide (count_adds cs = 0) then None else Some "1")
  ∧ (∀ m n x y, m < n → ids !! m = Some x → ids !! n = Some y →
       ∃ a b : Z, x = String_ a ∧ y = String_ b ∧ (1 ≤ a < b)%Z)
  ∧ NoDup ids
  ∧ (id <$> todos (run cs init).2) `sublist_of` ids
  ∧ NoDup (id <$> todos (run cs init).2).
Proof.
  intros ids. destruct (run_assigned_ids cs init) as [Hids Hn].
  fold ids in Hids. cbn [nextId init] in Hids, Hn.
  assert (NoDup ids) as Hnodup.
  { rewrite Hids. apply (NoDup_fmap_2 _), NoDup_seqZ. }
  assert ((id <$> todos (run cs init).2) `sublist_of` ids) as Hsub.
  { destruct (run_ids_from_counter cs init) as [_ Hsub].
    - split; [done|]. cbn. apply sublist_nil_l.
    - rewrite Hn in Hsub. rewrite Hids.
      by replace (1 + Z.of_nat (count_adds cs) - 1)%Z
        with (Z.of_nat (count_adds cs)) in Hsub by lia. }
  split_and!; [done| |    |done|done|by eapply sublist_NoDup].
  - rewrite Hids. case_decide as Hz; [by rewrite Hz|].
    rewrite seqZ_cons by lia. done.
  - intros m n x y Hmn Hm Hn'. rewrite Hids, list_lookup_fmap in Hm, Hn'.
    apply fmap_Some in Hm as (a & [-> ?]%lookup_seqZ & ->).
    apply fmap_Some in Hn' as (b & [-> ?]%lookup_seqZ & ->).
    eexists _, _. split_and!; [done..|lia|lia].
Qed.

(** ** Titles *)

(** The claim C6 fails: an add with the empty string as title is accepted,
    succeeds, and puts a record with an empty title into the store. *)
Lemma add_todo_accepts_empty_title :
  ∃ r s',
    call_add_todo (JsString EmptyString) "2026-01-01T00:00:00.000Z" init
    = (Handled r, s')
    ∧ isError r = false
    ∧ todos s' = [ {| id := "1"; title := EmptyString; completed := false;
                      createdAt := "2026-01-01T00:00:00.000Z" |} ].
Proof. eexists _, _. split; [reflexivity|]. split; reflexivity. Qed.

(** C6, amended: the schema of [add_todo] accepts every string as title, the
    empty one included, and the handler has no rejection path: the call
    returns a result that is not flagged as an error and appends one record
    whose title is the string supplied, unchanged.  A title that is not a
    string does not reach the handler and leaves the store as it is. *)
Theorem add_todo_keeps_title_as_given (ttl now : string) s :
  (∃ r t,
     call_add_todo (JsString ttl) now s
     = (Handled r, {| todos := todos s ++ [t]; nextId := (nextId s + 1)%Z |})
     ∧ isError r = false
     ∧ assigned_id r = Some (id t)
     ∧ title t = ttl ∧ completed t = false ∧ createdAt t = now
     ∧ id t = String_ (nextId s))
  ∧ call_add_todo JsUndefined now s = (InvalidParams, s)
  ∧ call_add_todo JsNull now s = (InvalidParams, s)
  ∧ (∀ b, call_add_todo (JsBool b) now s = (InvalidParams, s))
  ∧ (∀ n, call_add_todo (JsNumber n) now s = (InvalidParams, s)).
Proof.
  split; [|done]. eexists _, _. split; [reflexivity|]. done.
Qed.

End todo_store.

(** * Properties of the widget asset resolver *)

Section widget_resolver.
Import Widget.

Variable WIDGET_URL : string.

Implicit Types (c : Cache) (w : World) (files : WidgetFiles).

Abbreviation discover := (discoverWidgetFiles WIDGET_URL).
Abbreviation index := (index_url WIDGET_URL).

(** Unfolds a computation of [M] down to its triple. *)
Ltac run_M :=
  unfold get_widget_js, get_widget_css, discoverWidgetFiles, when_match;
  unfold mbind, M_bind, mret, M_ret, date_now, read, fetch_text, emit,
    set_js, set_css, set_lastFetch;
  cbn [fst snd widgetFiles lastFetch js css].

Lemma truthy_nonempty (x : string) : truthy x = true ↔ x ≠ EmptyString.
Proof. by destruct x. Qed.

Lemma fresh_true c now :
  fresh c now = true ↔
  js (widgetFiles c) ≠ EmptyString ∧ css (widgetFiles c) ≠ EmptyString
  ∧ (now - lastFetch c < CACHE_TTL)%Z.
Proof.
  unfold fresh. rewrite !andb_true_iff, !truthy_nonempty, bool_decide_eq_true.
  tauto.
Qed.

(** The three ways a discovery can go. *)
Lemma discover_fresh w c :
  fresh c (clock w) = true → discover w c = (widgetFiles c, c, []).
Proof. intros Hf. run_M. by rewrite Hf. Qed.

Lemma discover_answered w c html :
  fresh c (clock w) = false → remote w index = Some html →
  let files := {| js := default (js (widgetFiles c)) (jsMatch html);
                  css := default (css (widgetFiles c)) (cssMatch html) |} in
  discover w c
  = (files, {| widgetFiles := files; lastFetch := clock w |},
     [Fetch index; ConsoleLog files]).
Proof.
  intros Hf Hr. run_M. rewrite Hf, Hr.
  by destruct (jsMatch html), (cssMatch html), c as [[]].
Qed.

Lemma discover_failed w c :
  fresh c (clock w) = false → remote w index = None →
  discover w c
  = (widgetFiles c, c, [Fetch index; ConsoleError "Error discovering widget files:"]).
Proof. intros Hf Hr. run_M. by rewrite Hf, Hr. Qed.

(** ** The freshness guard *)

(** C7: in every cache state (reachable or not) whose two filenames are both
    non-empty and whose age [now - lastFetch] is strictly below [CACHE_TTL],
    which is 60000 ms, a discovery emits no event at all, so no network
    request, returns the cached filenames and leaves the cache as it is. *)
Theorem fresh_cache_issues_no_request w c :
  js (widgetFiles c) ≠ EmptyString →
  css (widgetFiles c) ≠ EmptyString →
  (clock w - lastFetch c < 60000)%Z →
  discover w c = (widgetFiles c, c, []) ∧ fetches (discover w c).2 = [].
Proof.
  intros Hjs Hcss Hage.
  rewrite discover_fresh; [done|]. by apply fresh_true.
Qed.

(** C9: the guard wants both filenames at once.  In every cache state where
    exactly one of them is empty, every discovery, whatever the clock and
    whatever [lastFetch], starts by fetching the remote index page. *)
Theorem one_missing_name_always_refetches w c :
  (js (widgetFiles c) = EmptyString ∧ css (widgetFiles c) ≠ EmptyString)
  ∨ (js (widgetFiles c) ≠ EmptyString ∧ css (widgetFiles c) = EmptyString) →
  ∃ es, (discover w c).2 = Fetch index :: es
        ∧ index ∈ fetches (discover w c).2.
Proof.
  intros Hone.
  assert (fresh c (clock w) = false) as Hf.
  { apply not_true_is_false. rewrite fresh_true.
    destruct Hone as [[? ?]|[? ?]]; tauto. }
  destruct (remote w index) as [html|] eqn:Hr.
  - rewrite (discover_answered w c html Hf Hr). eexists. split; [done|].
    cbn. apply list_elem_of_here.
  - rewrite (discover_failed w c Hf Hr). eexists. split; [done|].
    cbn. apply list_elem_of_here.
Qed.

(** C10: when a discovery fetches the index page and the fetch does not
    throw, [lastFetch] becomes the time of the call whatever the page
    holds: each filename is replaced if its pattern matched and kept
    otherwise.  So if both filenames are then non-empty (as they are when
    both were cached before), every discovery within the next [CACHE_TTL]
    issues no request and returns these filenames, the unmatched ones being
    the old ones. *)
Theorem answered_fetch_restarts_ttl w c html :
  fresh c (clock w) = false →
  remote w index = Some html →
  ∃ files es,
    discover w c = (files, {| widgetFiles := files; lastFetch := clock w |}, es)
    ∧ js files = default (js (widgetFiles c)) (jsMatch html)
    ∧ css files = default (css (widgetFiles c)) (cssMatch html)
    ∧ (jsMatch html = None → cssMatch html = None → files = widgetFiles c)
    ∧ ∀ w', js files ≠ EmptyString → css files ≠ EmptyString →
        (clock w' - clock w < CACHE_TTL)%Z →
        discover w' {| widgetFiles := files; lastFetch := clock w |}
        = (files, {| widgetFiles := files; lastFetch := clock w |}, []).
Proof.
  intros Hf Hr. eexists _, _. split; [by apply discover_answered|].
  cbn [js css]. split_and!; [done..| |].
  - intros -> ->. by destruct c as [[]].
  - intros w' Hjs Hcss Hage. apply discover_fresh, fresh_true. done.
Qed.

(** ** The two asset routes *)

Lemma get_widget_js_discover w c :
  get_widget_js WIDGET_URL w c
  = let '(files, c1, e1) := discover w c in
    if truthy (js files) then
      match remote w (WIDGET_URL +:+ "/" +:+ js files) with
      | Some text =>
          ({| status := 200; contentType := Some "application/javascript";
              body := text |}, c1,
           e1 ++ [Fetch (WIDGET_URL +:+ "/" +:+ js files)])
      | None =>
          ({| status := 500; contentType := None;
              body := "// Error loading widget JS" |}, c1,
           e1 ++ [Fetch (WIDGET_URL +:+ "/" +:+ js files);
                  ConsoleError "Error fetching widget JS:"])
      end
    else ({| status := 404; contentType := None;
             body := "// Widget JS not found" |}, c1, e1 ++ []).
Proof.
  unfold get_widget_js, mbind, M_bind.
  destruct (discover w c) as [[files c1] e1].
  destruct (truthy (js files)); [|done]. cbn [negb].
  unfold fetch_text, emit, mret, M_ret.
  by destruct (remote w _).
Qed.

Lemma get_widget_css_discover w c :
  get_widget_css WIDGET_URL w c
  = let '(files, c1, e1) := discover w c in
    if truthy (css files) then
      match remote w (WIDGET_URL +:+ "/" +:+ css files) with
      | Some text =>
          ({| status := 200; contentType := Some "text/css"; body := text |},
           c1, e1 ++ [Fetch (WIDGET_URL +:+ "/" +:+ css files)])
      | None =>
          ({| status := 500; contentType := None;
              body := "/* Error loading widget CSS */" |}, c1,
           e1 ++ [Fetch (WIDGET_URL +:+ "/" +:+ css files);
                  ConsoleError "Error fetching widget CSS:"])
      end
    else ({| status := 404; contentType := None;
             body := "/* Widget CSS not found */" |}, c1, e1 ++ []).
Proof.
  unfold get_widget_css, mbind, M_bind.
  destruct (discover w c) as [[files c1] e1].
  destruct (truthy (css files)); [|done]. cbn [negb].
  unfold fetch_text, emit, mret, M_ret.
  by destruct (remote w _).
Qed.

(** The cache a request leaves behind is the one its discovery leaves. *)
Lemma serve_cache rt w c :
  (serve WIDGET_URL rt w c).1.2 = (discover w c).1.2.
Proof.
  destruct rt; cbn [serve];
    rewrite ?get_widget_js_discover, ?get_widget_css_discover;
    destruct (discover w c) as [[files c1] e1]; cbn [fst snd];
    repeat case_match; done.
Qed.



Lemma serve_all_cons rt w reqs c :
  serve_all WIDGET_URL ((rt, w) :: reqs) c
  = (((serve WIDGET_URL rt w c).1.1, (serve WIDGET_URL rt w c).2)
       :: (serve_all WIDGET_URL reqs (serve WIDGET_URL rt w c).1.2).1,
     (serve_all WIDGET_URL reqs (serve WIDGET_URL rt w c).1.2).2).
Proof.
  cbn [serve_all]. destruct (serve WIDGET_URL rt w c) as [[r c1] es].
  cbn [fst snd]. by destruct (serve_all WIDGET_URL reqs c1).
Qed.






End widget_resolver.

(** * The theorems with hypotheses, at concrete caches and worlds *)

Section instances.
Import Widget.

Lemma fresh_cache_issues_no_request_witness :
  discoverWidgetFiles origin (world_down 2000) cache_both
  = (widgetFiles cache_both, cache_both, [])
  ∧ fetches (discoverWidgetFiles origin (world_down 2000) cache_both).2 = [].
Proof.
  apply (fresh_cache_issues_no_request origin (world_down 2000) cache_both);
    [done|done|reflexivity].
Defined.

Lemma one_missing_name_always_refetches_witness :
  ∃ es,
    (discoverWidgetFiles origin (world_at 1001 script_tag) cache_script_only).2
    = Fetch (index_url origin) :: es
    ∧ index_url origin
      ∈ fetches (discoverWidgetFiles origin (world_at 1001 script_tag)
                   cache_script_only).2.
Proof.
  apply (one_missing_name_always_refetches origin
           (world_at 1001 script_tag) cache_script_only).
  right. split; [done|reflexivity].
Defined.

Lemma answered_fetch_restarts_ttl_witness :
  let w := world_at 70000 "<html></html>" in
  ∃ files es,
    discoverWidgetFiles origin w cache_both
    = (files, {| widgetFiles := files; lastFetch := clock w |}, es)
    ∧ js files = default (js (widgetFiles cache_both)) (jsMatch "<html></html>")
    ∧ css files
      = default (css (widgetFiles cache_both)) (cssMatch "<html></html>")
    ∧ (jsMatch "<html></html>" = None → cssMatch "<html></html>" = None →
       files = widgetFiles cache_both)
    ∧ ∀ w', js files ≠ EmptyString → css files ≠ EmptyString →
        (clock w' - clock w < CACHE_TTL)%Z →
        discoverWidgetFiles origin w'
          {| widgetFiles := files; lastFetch := clock w |}
        = (files, {| widgetFiles := files; lastFetch := clock w |}, []).
Proof.
  intros w.
  apply (answered_fetch_restarts_ttl origin w cache_both "<html></html>");
    reflexivity.
Defined.

(** The scenario of the specification, and the asset routes, evaluated. *)

Example scenario_runs :
  let calls := [Todos.CAdd "Buy milk" "t1"; Todos.CAdd "Walk dog" "t2";
                Todos.CToggle "1"; Todos.CClear;
                Todos.CDelete "2"; Todos.CDelete "2"] in
  Todos.assigned_ids (Todos.run calls Todos.init).1 = ["1"; "2"]
  ∧ Todos.isError <$> (Todos.run calls Todos.init).1
    = [false; false; false; false; false; true]
  ∧ Todos.cleared_of <$> (Todos.run calls Todos.init).1 !! 3 = Some (Some 1%Z)
  ∧ (Todos.run calls Todos.init).2
    = {| Todos.todos := []; Todos.nextId := 3 |}.
Proof. vm_compute. by split_and!. Qed.

Example patterns_on_samples :
  jsMatch (link_tag +:+ script_tag) = Some "widget-abc123.js"
  ∧ cssMatch (link_tag +:+ script_tag) = Some "widget-0a1b.css"
  ∧ jsMatch ("src=" +:+ dq +:+ "/widget.js" +:+ dq) = Some "widget.js"
  ∧ jsMatch ("src=" +:+ dq +:+ "/widget-.js" +:+ dq) = None
  ∧ jsMatch ("src=" +:+ dq +:+ "/widget-xyz.js" +:+ dq) = None
  ∧ cssMatch script_tag = None.
Proof. vm_compute. by split_and!. Qed.

Example first_request_discovers_both :
  get_widget_css origin (world_at 1000 (link_tag +:+ script_tag)) Widget.init
  = ({| status := 200; contentType := Some "text/css"; body := "body{}" |},
     cache_both,
     [Fetch (origin +:+ "/index.html"); ConsoleLog (widgetFiles cache_both);
      Fetch (origin +:+ "/widget-0a1b.css")]).
Proof. vm_compute. reflexivity. Qed.

End instances.

(** * Further properties of the todo store *)

Section todo_store_more.
Import Todos Views.

Implicit Types (s : Store) (t : Todo) (i : string) (cs : list Call)
  (c : Call) (l : list Todo).

(** ** Deleting *)

(** X1: A successful [delete_todo] removes the first record that bears the
    identifier and nothing else: the records before it and after it stay,
    in order; the list is one shorter; the counter is untouched; the
    record removed is the one reported. *)
Theorem delete_removes_first_match s i :
  i ∈ id <$> todos s →
  ∃ k t r s',
    delete_todo i s = (r, s')
    ∧ todos s !! k = Some t ∧ id t = i
    ∧ (∀ j t', j < k → todos s !! j = Some t' → id t' ≠ i)
    ∧ todos s' = take k (todos s) ++ drop (S k) (todos s)
    ∧ length (todos s') + 1 = length (todos s)
    ∧ nextId s' = nextId s
    ∧ isError r = false
    ∧ deleted_of r = Some t
    ∧ all_of r = Some (todos s').
Proof.
  intros Hi. destruct (find_present s i Hi) as (k & t & Hfind).
  pose proof Hfind as (Hk & Hid & Hmin)%list_find_Some.
  exists k, t. unfold delete_todo. rewrite Hfind. eexists _, _.
  split; [reflexivity|]. cbn. split_and!; try done.
  - intros j t' Hlt Hj. exact (Hmin j t' Hj Hlt).
  - apply delete_take_drop.
  - rewrite length_delete by done.
    apply lookup_lt_Some in Hk. lia.
Qed.

Lemma delete_removes_first_match_witness :
  let s := (run [CAdd "Buy milk" "t1"; CAdd "Walk dog" "t2"] init).2 in
  ∃ k t r s',
    delete_todo "1" s = (r, s')
    ∧ todos s !! k = Some t ∧ id t = "1"
    ∧ (∀ j t', j < k → todos s !! j = Some t' → id t' ≠ "1")
    ∧ todos s' = take k (todos s) ++ drop (S k) (todos s)
    ∧ length (todos s') + 1 = length (todos s)
    ∧ nextId s' = nextId s
    ∧ isError r = false
    ∧ deleted_of r = Some t
    ∧ all_of r = Some (todos s').
Proof.
  intros s. apply (delete_removes_first_match s "1").
  apply (bool_decide_unpack _). vm_compute. exact I.
Defined.

(** ** Stores reached from the initial one *)

Lemma reached_ids_from_counter cs : ids_from_counter (run cs init).2.
Proof.
  apply run_ids_from_counter. split; [done|]. apply sublist_nil_l.
Qed.

Lemma ids_from_counter_NoDup s :
  ids_from_counter s → NoDup (id <$> todos s).
Proof.
  intros [_ Hsub]. eapply sublist_NoDup; [|exact Hsub].
  apply (NoDup_fmap_2 _), NoDup_seqZ.
Qed.

Lemma ids_from_counter_fresh s :
  ids_from_counter s → String_ (nextId s) ∉ id <$> todos s.
Proof.
  intros [_ Hsub] Hin.
  apply (elem_of_sublist _ _ _ Hin) in Hsub as Hin'. clear Hin.
  rename Hin' into Hin.
  apply list_elem_of_fmap in Hin as (k & Heq & Hk).
  apply (inj _) in Heq. subst k. apply elem_of_seqZ in Hk. lia.
Qed.

Lemma NoDup_first_match l k t :
  NoDup (id <$> l) → l !! k = Some t →
  list_find (λ t', id t' = id t) l = Some (k, t).
Proof.
  intros Hnd Hk. apply list_find_Some. split_and!; [done..|].
  intros j t' Hj Hlt Heq.
  assert (j = k); [|lia].
  eapply NoDup_lookup; [done|by rewrite list_lookup_fmap, Hj|].
  rewrite list_lookup_fmap, Hk. cbn. by rewrite Heq.
Qed.

Lemma NoDup_delete_gone l k t :
  NoDup (id <$> l) → l !! k = Some t → id t ∉ id <$> delete k l.
Proof.
  intros Hnd Hk. rewrite <- (take_drop_middle l k t Hk) in Hnd.
  rewrite fmap_app, fmap_cons in Hnd.
  apply NoDup_app in Hnd as (_ & Hleft & [Hright _]%NoDup_cons).
  rewrite delete_take_drop, fmap_app, elem_of_app.
  intros [Hin|Hin]; [|done].
  apply (Hleft _ Hin). apply list_elem_of_here.
Qed.

(** X2: In a store reached from the initial one by any sequence of calls, a
    successful [delete_todo] makes the identifier unknown: the next
    [toggle_todo] or [delete_todo] with it is the not-found result and
    leaves the store as the deletion left it. *)
Theorem deleted_id_is_then_unknown cs i :
  i ∈ id <$> todos (run cs init).2 →
  let s' := (delete_todo i (run cs init).2).2 in
  (i ∉ id <$> todos s')
  ∧ toggle_todo i s' = (not_found i, s')
  ∧ delete_todo i s' = (not_found i, s').
Proof.
  intros Hi s'. set (s := (run cs init).2) in *.
  assert (i ∉ id <$> todos s') as Hgone.
  { subst s'. destruct (find_present s i Hi) as (k & t & Hfind).
    pose proof Hfind as (Hk & Hid & _)%list_find_Some.
    unfold delete_todo. rewrite Hfind. cbn. subst i.
    apply NoDup_delete_gone; [|done].
    apply ids_from_counter_NoDup, reached_ids_from_counter. }
  split; [done|]. unfold toggle_todo, delete_todo.
  by rewrite (find_absent s' i Hgone).
Qed.

Lemma deleted_id_is_then_unknown_witness :
  let cs := [CAdd "Buy milk" "t1"; CAdd "Walk dog" "t2"; CToggle "1"] in
  let s := (run cs init).2 in
  let s' := (delete_todo "2" s).2 in
  ("2" ∉ id <$> todos s')
  ∧ toggle_todo "2" s' = (not_found "2", s')
  ∧ delete_todo "2" s' = (not_found "2", s').
Proof.
  intros cs. apply (deleted_id_is_then_unknown cs "2").
  apply (bool_decide_unpack _). vm_compute. exact I.
Defined.

(** X3: In a store reached from the initial one, every record is the one its
    identifier addresses: [toggle_todo] with the identifier of the record
    at position [k] changes that position and reports that record flipped,
    and [delete_todo] removes that position and reports that record. *)
Theorem reached_record_is_addressed_by_its_id cs k t :
  todos (run cs init).2 !! k = Some t →
  let s := (run cs init).2 in
  todos (toggle_todo (id t) s).2 = <[k := flip t]> (todos s)
  ∧ toggled_of (toggle_todo (id t) s).1 = Some (flip t)
  ∧ todos (delete_todo (id t) s).2 = delete k (todos s)
  ∧ deleted_of (delete_todo (id t) s).1 = Some t.
Proof.
  intros Hk s.
  assert (list_find (λ t', id t' = id t) (todos s) = Some (k, t)) as Hfind.
  { apply NoDup_first_match; [|done].
    apply ids_from_counter_NoDup, reached_ids_from_counter. }
  unfold toggle_todo, delete_todo. by rewrite Hfind.
Qed.

Lemma reached_record_is_addressed_by_its_id_witness :
  let cs := [CAdd "Buy milk" "t1"; CAdd "Walk dog" "t2"; CToggle "1"] in
  let t := {| id := "2"; title := "Walk dog"; completed := false;
              createdAt := "t2" |} in
  let s := (run cs init).2 in
  todos (toggle_todo (id t) s).2 = <[1 := flip t]> (todos s)
  ∧ toggled_of (toggle_todo (id t) s).1 = Some (flip t)
  ∧ todos (delete_todo (id t) s).2 = delete 1 (todos s)
  ∧ deleted_of (delete_todo (id t) s).1 = Some t.
Proof.
  intros cs t. apply (reached_record_is_addressed_by_its_id cs 1 t).
  reflexivity.
Defined.

(** ** Adding *)

Lemma find_appended l t i :
  id t = i → i ∉ id <$> l →
  list_find (λ t', id t' = i) (l ++ [t]) = Some (length l, t).
Proof.
  intros Hid Hfresh. rewrite list_find_app_r.
  - cbn. by rewrite decide_True.
  - apply list_find_None, Forall_forall. intros t' Ht' Heq.
    apply Hfresh, list_elem_of_fmap. by exists t'.
Qed.

(** X4: In a store reached from the initial one, the identifier an add hands
    out is borne by no record yet, and deleting it right away gives back
    the list as it was before the add; only the counter has moved on. *)
Theorem add_then_delete_restores_list cs (ttl now : string) :
  let s := (run cs init).2 in
  let i := String_ (nextId s) in
  let s1 := (add_todo ttl now s).2 in
  (i ∉ id <$> todos s)
  ∧ assigned_id (add_todo ttl now s).1 = Some i
  ∧ todos (delete_todo i s1).2 = todos s
  ∧ nextId (delete_todo i s1).2 = (nextId s + 1)%Z
  ∧ deleted_of (delete_todo i s1).1
    = Some {| id := i; title := ttl; completed := false; createdAt := now |}.
Proof.
  intros s i s1.
  pose proof (ids_from_counter_fresh s (reached_ids_from_counter cs)) as Hfresh.
  split; [done|]. split; [done|].
  subst s1 i. unfold delete_todo, add_todo. cbn [todos nextId snd].
  rewrite (find_appended (todos s)
             {| id := String_ (nextId s); title := ttl; completed := false;
                createdAt := now |} (String_ (nextId s))) by done.
  cbn. split_and!; [|done..].
  by rewrite (delete_middle (todos s) []), app_nil_r.
Qed.

(** ** What every handler returns *)

(** X5: Whatever the call and the store, a result that is not an error carries
    the whole list as it is after the call and a preview that is its first
    ten records (all of them if there are fewer); an error result carries
    neither. *)
Theorem preview_is_first_ten c s :
  let r := (handle c s).1 in
  let l := todos (handle c s).2 in
  (isError r = false ∧ all_of r = Some l
   ∧ ∃ p, preview_of r = Some p ∧ p `prefix_of` l
          ∧ length p = min 10 (length l))
  ∨ (isError r = true ∧ all_of r = None ∧ preview_of r = None).
Proof.
  assert (∀ l, ∃ p, Some (preview10 l) = Some p ∧ p `prefix_of` l
                    ∧ length p = min 10 (length l)) as Hp.
  { intros l. eexists. split; [done|]. split; [apply prefix_take|].
    apply length_take. }
  destruct c as [|ttl now|i|i|]; cbn [handle].
  - left. cbn. split_and!; [done..|]. apply Hp.
  - left. cbn. split_and!; [done..|]. apply Hp.
  - unfold toggle_todo. destruct (list_find _ _) as [[k t]|]; [|by right].
    left. cbn. split_and!; [done..|]. apply Hp.
  - unfold delete_todo. destruct (list_find _ _) as [[k t]|]; [|by right].
    left. cbn. split_and!; [done..|]. apply Hp.
  - left. cbn. split_and!; [done..|]. apply Hp.
Qed.

(** X6: A call fails exactly when it is a toggle or a delete with an identifier
    that no record bears; a call that fails changes nothing. *)
Theorem only_unknown_ids_fail c s :
  (isError (handle c s).1 = true
   ↔ ∃ i, (c = CToggle i ∨ c = CDelete i) ∧ i ∉ id <$> todos s)
  ∧ (isError (handle c s).1 = false ∨ (handle c s).2 = s).
Proof.
  assert (∀ i, list_find (λ t, id t = i) (todos s) = None
               ↔ i ∉ id <$> todos s) as Hnone.
  { intros i. split; [|apply find_absent].
    intros Hfind (k & t & Hfind')%find_present. congruence. }
  destruct c as [|ttl now|i|i|]; cbn [handle].
  - split; [|by left]. split; [done|]. by intros (i & [?|?] & _).
  - split; [|by left]. split; [done|]. by intros (i & [?|?] & _).
  - unfold toggle_todo.
    destruct (list_find _ _) as [[k t]|] eqn:Hfind; cbn.
    + split; [|by left]. split; [done|].
      intros (i' & [[= <-]|?] & Hi'); [|done].
      apply Hnone in Hi'. congruence.
    + split; [|by right]. split; [|done].
      intros _. exists i. split; [by left|]. by apply Hnone.
  - unfold delete_todo.
    destruct (list_find _ _) as [[k t]|] eqn:Hfind; cbn.
    + split; [|by left]. split; [done|].
      intros (i' & [?|[= <-]] & Hi'); [done|].
      apply Hnone in Hi'. congruence.
    + split; [|by right]. split; [|done].
      intros _. exists i. split; [by right|]. by apply Hnone.
  - split; [|by left]. split; [done|]. by intros (i & [?|?] & _).
Qed.

(** ** The counter and the size of the store *)

(** X7: After any sequence of calls from the initial store, the counter is one
    more than the number of adds, the store holds at most as many records
    as there were adds, and every record bears the rendering of a number
    from 1 up to, and not including, the counter. *)
Theorem counter_counts_adds cs :
  let s := (run cs init).2 in
  nextId s = (1 + Z.of_nat (count_adds cs))%Z
  ∧ length (todos s) ≤ count_adds cs
  ∧ ∀ t, t ∈ todos s → ∃ n, (1 ≤ n < nextId s)%Z ∧ id t = String_ n.
Proof.
  intros s. destruct (run_assigned_ids cs init) as [_ Hn].
  destruct (reached_ids_from_counter cs) as [_ Hsub].
  fold s in Hn, Hsub. cbn [nextId init] in Hn. split; [done|]. split.
  - apply sublist_length in Hsub.
    rewrite !length_fmap, length_seqZ in Hsub. lia.
  - intros t Ht.
    assert (id t ∈ id <$> todos s) as Hin.
    { apply list_elem_of_fmap. by exists t. }
    apply (elem_of_sublist _ _ _ Hin) in Hsub.
    apply list_elem_of_fmap in Hsub as (n & -> & Hseq).
    apply elem_of_seqZ in Hseq. exists n. split; [lia|done].
Qed.

(** ** Fields that are never written again *)

(** X8: No handler changes the [id], [title] or [createdAt] of a record or the
    order of the records: an add appends one triple, [get_todos] and
    [toggle_todo] leave the triples as they are, and the two removing
    handlers leave a sublist of them. *)
Theorem handlers_never_rewrite_fixed_fields c s :
  let before := fixed_fields <$> todos s in
  let after := fixed_fields <$> todos (handle c s).2 in
  match c with
  | CAdd ttl now => after = before ++ [(String_ (nextId s), ttl, now)]
  | CGet | CToggle _ => after = before
  | CDelete _ | CClear => after `sublist_of` before
  end.
Proof.
  intros before after. subst before after.
  destruct c as [|ttl now|i|i|]; cbn [handle].
  - done.
  - cbn. by rewrite fmap_app.
  - unfold toggle_todo.
    destruct (list_find _ _) as [[k t]|] eqn:Hfind; [|done].
    apply list_find_Some in Hfind as (Hk & _ & _). cbn.
    rewrite list_fmap_insert. apply list_insert_id.
    by rewrite list_lookup_fmap, Hk.
  - unfold delete_todo.
    destruct (list_find _ _) as [[k t]|] eqn:Hfind; [|done].
    cbn. apply fmap_sublist, sublist_delete.
  - cbn. apply fmap_sublist, sublist_filter.
Qed.

(** ** Counts of completed and pending records *)

(** X9: Listing right after [clear_completed] reports no completed record:
    [total] and [pending] are both the number of records that were pending
    before the clearing. *)
Theorem nothing_completed_after_clear s :
  stats_of (get_todos (clear_completed s).2).1
  = Some {| total := Z.of_nat (count_pending (todos s));
            completedCount := 0;
            pendingCount := Z.of_nat (count_pending (todos s)) |}.
Proof.
  cbn. unfold len, count_pending. rewrite no_completed_left. cbn [length].
  do 2 f_equal. lia.
Qed.

Lemma counts_at l k t t' :
  l !! k = Some t →
  count_completed (<[k := t']> l) + (if completed t then 1 else 0)
  = count_completed l + (if completed t' then 1 else 0)
  ∧ count_pending (<[k := t']> l) + (if completed t then 0 else 1)
    = count_pending l + (if completed t' then 0 else 1).
Proof.
  intros Hk. unfold count_completed, count_pending.
  rewrite insert_take_drop by by eapply lookup_lt_Some.
  rewrite <- (take_drop_middle l k t Hk) at 3 6.
  rewrite !filter_app, !filter_cons, !length_app.
  destruct (completed t), (completed t'); cbn;
    repeat case_decide; try tauto; cbn [length]; lia.
Qed.

(** X10: A successful [toggle_todo] moves exactly one record from one count to
    the other: if the record reported is now completed, there is one more
    completed and one less pending record than before, and the other way
    round if it is now pending; the number of records stays. *)
Theorem toggle_moves_one_record_between_counts s i :
  i ∈ id <$> todos s →
  ∃ t, toggled_of (toggle_todo i s).1 = Some t
    ∧ length (todos (toggle_todo i s).2) = length (todos s)
    ∧ if completed t then
        count_completed (todos (toggle_todo i s).2)
        = count_completed (todos s) + 1
        ∧ count_pending (todos (toggle_todo i s).2) + 1
          = count_pending (todos s)
      else
        count_completed (todos (toggle_todo i s).2) + 1
        = count_completed (todos s)
        ∧ count_pending (todos (toggle_todo i s).2)
          = count_pending (todos s) + 1.
Proof.
  intros Hi. destruct (find_present s i Hi) as (k & t & Hfind).
  pose proof Hfind as (Hk & _ & _)%list_find_Some.
  unfold toggle_todo. rewrite Hfind. cbn. exists (flip t).
  split; [done|]. split; [apply length_insert|].
  destruct (counts_at (todos s) k t (flip t) Hk) as [Hc Hp].
  cbn in *. unfold count_completed, count_pending in *.
  destruct (completed t); cbn in *; lia.
Qed.

Lemma toggle_moves_one_record_between_counts_witness :
  let s := (run [CAdd "Buy milk" "t1"; CAdd "Walk dog" "t2"] init).2 in
  ∃ t, toggled_of (toggle_todo "1" s).1 = Some t
    ∧ length (todos (toggle_todo "1" s).2) = length (todos s)
    ∧ if completed t then
        count_completed (todos (toggle_todo "1" s).2)
        = count_completed (todos s) + 1
        ∧ count_pending (todos (toggle_todo "1" s).2) + 1
          = count_pending (todos s)
      else
        count_completed (todos (toggle_todo "1" s).2) + 1
        = count_completed (todos s)
        ∧ count_pending (todos (toggle_todo "1" s).2)
          = count_pending (todos s) + 1.
Proof.
  intros s. apply (toggle_moves_one_record_between_counts s "1").
  apply (bool_decide_unpack _). vm_compute. exact I.
Defined.

End todo_store_more.

(** * Further properties of the widget asset resolver *)

Section patterns.
Import Widget Patterns.

Implicit Types (p s r h ext attr name html : string).

(** ** Strings *)

#[local] Arguments String.append !_ _ / : simpl nomatch.

Lemma append_assoc p s r : (p +:+ s) +:+ r = p +:+ s +:+ r.
Proof. induction p as [|a p IH]; [done|]. cbn. f_equal. exact IH. Qed.

Lemma after_Some p s r : after p s = Some r ↔ s = p +:+ r.
Proof.
  revert s. induction p as [|a p IH]; intros s; cbn.
  - split; congruence.
  - destruct s as [|b s]; [done|].
    destruct (Ascii.eqb_spec a b) as [->|Hne].
    + rewrite IH. split; congruence.
    + split; [done|]. congruence.
Qed.

Lemma after_append p r : after p (p +:+ r) = Some r.
Proof. by apply after_Some. Qed.

Lemma hex_run_sound s :
  s = (hex_run s).1 +:+ (hex_run s).2 ∧ all_hex (hex_run s).1 = true.
Proof.
  induction s as [|a s [IHs IHh]]; cbn; [done|].
  destruct (is_hex a) eqn:Ha; [|done].
  destruct (hex_run s) as [h r]. cbn in *. rewrite Ha, IHh.
  split; [|done]. by rewrite <- IHs.
Qed.

Lemma hex_run_append h b r :
  all_hex h = true → is_hex b = false →
  hex_run (h +:+ String b r) = (h, String b r).
Proof.
  intros Hh Hb. induction h as [|a h IH]; cbn in *.
  - by rewrite Hb.
  - apply andb_true_iff in Hh as [-> Hh]. by rewrite IH.
Qed.

(** ** The filename patterns *)

Lemma widget_name_sound ext s name :
  widget_name ext s = Some name →
  hashed_name ext name ∧ ∃ post, s = name +:+ dq +:+ post.
Proof.
  unfold widget_name. destruct (after "widget" s) as [rest|] eqn:Hw; [|done].
  apply after_Some in Hw. subst s. cbn [mbind option_bind].
  assert (∀ name,
    (_ ← after (("." +:+ ext) +:+ dq) rest; Some ("widget" +:+ "." +:+ ext))
    = Some name →
    hashed_name ext name ∧ ∃ post, "widget" +:+ rest = name +:+ dq +:+ post)
    as Hplain.
  { intros n. destruct (after _ rest) as [post|] eqn:Hp; [|done].
    intros [= <-]. apply after_Some in Hp. subst rest.
    split; [by left|]. exists post. cbn. by rewrite append_assoc. }
  destruct rest as [|a r]; [apply Hplain|].
  destruct (Ascii.eqb_spec a "-") as [->|Hne].
  - destruct (hex_run_sound r) as [Hr Hh].
    destruct (hex_run r) as [h r']. cbn [fst snd] in *.
    destruct (truthy h) eqn:Ht; [|apply Hplain].
    destruct (after _ r') as [post|] eqn:Hp; [|apply Hplain].
    intros [= <-]. apply after_Some in Hp. subst r' r. split.
    + right. exists h. split; [by destruct h|]. done.
    + exists post. cbn. by rewrite !append_assoc.
  - intros Hn. apply Hplain. revert Hn.
    by destruct a as [[] [] [] [] [] [] [] []].
Qed.

Lemma widget_name_complete ext name post :
  hashed_name ext name → widget_name ext (name +:+ dq +:+ post) = Some name.
Proof.
  intros [->|(h & Hne & Hh & ->)]; unfold widget_name.
  - cbn -[dq]. rewrite <- (append_assoc ext dq post), after_append. done.
  - rewrite !append_assoc. cbn -[dq].
    rewrite (hex_run_append h "." (ext +:+ dq +:+ post)) by done.
    destruct h as [|a h]; [done|]. cbn -[dq].
    rewrite <- (append_assoc ext dq post), after_append. done.
Qed.

Lemma match_widget_sound attr ext html name :
  match_widget attr ext html = Some name →
  hashed_name ext name ∧ occurs_as attr name html.
Proof.
  induction html as [|a html IH]; cbn [match_widget].
  - destruct (after _ _ ≫= _) as [n|] eqn:Hhere; [|done].
    intros [= <-]. apply bind_Some in Hhere as (rest & Hpre & Hname).
    apply after_Some in Hpre. apply widget_name_sound in Hname as [Hn [post ->]].
    split; [done|]. exists EmptyString, post.
    etrans; [exact Hpre|]. by rewrite !append_assoc.
  - destruct (after _ _ ≫= _) as [n|] eqn:Hhere.
    + intros [= <-]. apply bind_Some in Hhere as (rest & Hpre & Hname).
      apply after_Some in Hpre.
      apply widget_name_sound in Hname as [Hn [post ->]].
      split; [done|]. exists EmptyString, post.
      etrans; [exact Hpre|]. by rewrite !append_assoc.
    + intros [Hn (pre & post & ->)]%IH. split; [done|].
      by exists (String a pre), post.
Qed.

Lemma match_widget_complete attr ext html name :
  hashed_name ext name → occurs_as attr name html →
  is_Some (match_widget attr ext html).
Proof.
  intros Hn (pre & post & ->). induction pre as [|a pre IH].
  - assert ((after (attr +:+ "=" +:+ dq +:+ "/")
               (EmptyString +:+ attr +:+ "=" +:+ dq +:+ "/" +:+ name +:+ dq
                +:+ post) ≫= widget_name ext) = Some name) as Hhere.
    { change (EmptyString +:+ ?x) with x.
      rewrite <- !append_assoc, !(append_assoc _ dq post).
      rewrite !(append_assoc _ name), after_append. cbn.
      by apply widget_name_complete. }
    destruct (attr +:+ "=" +:+ dq +:+ "/" +:+ name +:+ dq +:+ post) eqn:Hs;
      cbn [match_widget append] in *; rewrite ?Hs in *; by rewrite Hhere.
  - cbn [append match_widget]. by destruct (after _ _ ≫= _).
Qed.

Lemma hashed_name_nonempty ext name : hashed_name ext name → name ≠ EmptyString.
Proof. intros [->|(h & _ & _ & ->)]; done. Qed.

Lemma jsMatch_sound html name :
  jsMatch html = Some name →
  hashed_name "js" name ∧ occurs_as "src" name html.
Proof. apply match_widget_sound. Qed.

Lemma cssMatch_sound html name :
  cssMatch html = Some name →
  hashed_name "css" name ∧ occurs_as "href" name html.
Proof. apply match_widget_sound. Qed.

(** X11: The two patterns are sound: a name they capture is [widget.js], or
    [widget-], one or more of the characters a to f and 0 to 9, [.js]
    (for the stylesheet, [.css]), and the page holds it after [src=], a
    double quote and a slash (for the stylesheet, [href=]) and before a
    double quote.  In particular a captured name is never empty. *)
Theorem patterns_capture_only_widget_names html name :
  (jsMatch html = Some name →
   hashed_name "js" name ∧ occurs_as "src" name html
   ∧ name ≠ EmptyString)
  ∧ (cssMatch html = Some name →
     hashed_name "css" name ∧ occurs_as "href" name html
     ∧ name ≠ EmptyString).
Proof.
  split; intros [Hn Ho]%match_widget_sound;
    eauto using hashed_name_nonempty.
Qed.

(** X12: The two patterns are complete: on a page that holds such a name in such
    an attribute the match succeeds, so a failed match means that the page
    holds none. *)
Theorem patterns_miss_no_widget_name html name :
  (hashed_name "js" name → occurs_as "src" name html →
   is_Some (jsMatch html))
  ∧ (hashed_name "css" name → occurs_as "href" name html →
     is_Some (cssMatch html)).
Proof. split; apply match_widget_complete. Qed.

End patterns.

Lemma truthy_empty (x : string) : truthy x = false ↔ x = EmptyString.
Proof. by destruct x. Qed.

Section widget_resolver_more.
Import Widget Patterns.

Variable WIDGET_URL : string.

Implicit Types (c : Cache) (w : World) (rt : Route).

Abbreviation discover' := (discoverWidgetFiles WIDGET_URL).
Abbreviation index' := (index_url WIDGET_URL).

(** ** When the index page is fetched *)

Lemma fresh_false c now :
  fresh c now = false ↔
  js (widgetFiles c) = EmptyString ∨ css (widgetFiles c) = EmptyString
  ∨ (CACHE_TTL ≤ now - lastFetch c)%Z.
Proof.
  unfold fresh. rewrite !andb_false_iff, !truthy_empty, bool_decide_eq_false.
  split; [intros [[?|?]|?]|intros [?|[?|?]]]; auto; [right; right|right]; lia.
Qed.

Lemma discover_fetches w c :
  fetches (discover' w c).2 = if fresh c (clock w) then [] else [index'].
Proof.
  destruct (fresh c (clock w)) eqn:Hf.
  - by rewrite (discover_fresh WIDGET_URL w c Hf).
  - destruct (remote w index') as [html|] eqn:Hr.
    + by rewrite (discover_answered WIDGET_URL w c html Hf Hr).
    + by rewrite (discover_failed WIDGET_URL w c Hf Hr).
Qed.

(** X13: A discovery asks for the index page, once, exactly when a filename is
    unknown or the cache is at least [CACHE_TTL] old, whether or not the
    fetch then succeeds; otherwise it asks for nothing. *)
Theorem discovery_fetches_exactly_when_stale w c :
  (fetches (discover' w c).2 = [index']
   ∧ (js (widgetFiles c) = EmptyString ∨ css (widgetFiles c) = EmptyString
      ∨ (CACHE_TTL ≤ clock w - lastFetch c)%Z))
  ∨ (fetches (discover' w c).2 = []
     ∧ js (widgetFiles c) ≠ EmptyString ∧ css (widgetFiles c) ≠ EmptyString
     ∧ (clock w - lastFetch c < CACHE_TTL)%Z).
Proof.
  rewrite discover_fetches. destruct (fresh c (clock w)) eqn:Hf.
  - right. split; [done|]. by apply fresh_true.
  - left. split; [done|]. by apply fresh_false.
Qed.

(** ** What a request does to the cache *)

Lemma discover_returns_cache w c :
  (discover' w c).1.1 = widgetFiles (discover' w c).1.2.
Proof.
  destruct (fresh c (clock w)) eqn:Hf.
  - by rewrite (discover_fresh WIDGET_URL w c Hf).
  - destruct (remote w index') as [html|] eqn:Hr.
    + by rewrite (discover_answered WIDGET_URL w c html Hf Hr).
    + by rewrite (discover_failed WIDGET_URL w c Hf Hr).
Qed.

Lemma discover_cache w c :
  (discover' w c).1.2 = c
  ∨ ∃ html, remote w index' = Some html
      ∧ (discover' w c).1.2
        = {| widgetFiles :=
               {| js := default (js (widgetFiles c)) (jsMatch html);
                  css := default (css (widgetFiles c)) (cssMatch html) |};
             lastFetch := clock w |}.
Proof.
  destruct (fresh c (clock w)) eqn:Hf.
  - left. by rewrite (discover_fresh WIDGET_URL w c Hf).
  - destruct (remote w index') as [html|] eqn:Hr.
    + right. exists html. by rewrite (discover_answered WIDGET_URL w c html Hf Hr).
    + left. by rewrite (discover_failed WIDGET_URL w c Hf Hr).
Qed.

(** X14: Whatever the route and the world, a request leaves each cached filename
    as it was or replaces it by the name its pattern captures in the index
    page just fetched.  So a filename that is known is never forgotten,
    and [lastFetch] is left alone or set to the time of the request. *)
Theorem known_name_is_never_forgotten rt w c :
  let c' := (serve WIDGET_URL rt w c).1.2 in
  (js (widgetFiles c') = js (widgetFiles c)
   ∨ ∃ html, remote w index' = Some html
             ∧ jsMatch html = Some (js (widgetFiles c')))
  ∧ (css (widgetFiles c') = css (widgetFiles c)
     ∨ ∃ html, remote w index' = Some html
               ∧ cssMatch html = Some (css (widgetFiles c')))
  ∧ (js (widgetFiles c) ≠ EmptyString → js (widgetFiles c') ≠ EmptyString)
  ∧ (css (widgetFiles c) ≠ EmptyString → css (widgetFiles c') ≠ EmptyString)
  ∧ (lastFetch c' = lastFetch c ∨ lastFetch c' = clock w).
Proof.
  intros c'. subst c'. rewrite serve_cache.
  destruct (discover_cache w c) as [->|(html & Hr & ->)].
  { split_and!; auto. }
  cbn [widgetFiles js css lastFetch].
  destruct (jsMatch html) as [j|] eqn:Hj, (cssMatch html) as [k|] eqn:Hk;
    cbn [default]; split_and!; auto; try (right; by exists html); intros _.
  all: first [ by eapply hashed_name_nonempty, jsMatch_sound
             | by eapply hashed_name_nonempty, cssMatch_sound ].
Qed.



(** ** What a request answers and asks for *)

Lemma serve_discover rt w c :
  serve WIDGET_URL rt w c
  = let '(files, c1, e1) := discover' w c in
    let url := WIDGET_URL +:+ "/" +:+ asset_name rt files in
    if truthy (asset_name rt files) then
      match remote w url with
      | Some text =>
          ({| status := 200; contentType := Some (mime rt); body := text |},
           c1, e1 ++ [Fetch url])
      | None =>
          ({| status := 500; contentType := None; body := error_body rt |},
           c1,
           e1 ++ [Fetch url;
                  ConsoleError (match rt with
                                | RouteCss => "Error fetching widget CSS:"
                                | RouteJs => "Error fetching widget JS:"
                                end)])
      end
    else ({| status := 404; contentType := None; body := not_found_body rt |},
          c1, e1 ++ []).
Proof.
  destruct rt; cbn [serve asset_name mime error_body not_found_body].
  - rewrite get_widget_css_discover. by destruct (discover' w c) as [[? ?] ?].
  - rewrite get_widget_js_discover. by destruct (discover' w c) as [[? ?] ?].
Qed.

Lemma fetches_app es1 es2 : fetches (es1 ++ es2) = fetches es1 ++ fetches es2.
Proof. apply omap_app. Qed.

(** X15: What the handler of an asset route hands to [res] is always one
    of three things, decided by the filename in the cache after its
    discovery and by the fetch of that asset: [res.status(404)] and the
    placeholder, when the filename is unknown; the Content-Type of the
    route set by [res.setHeader] and the text fetched, with the status left
    at its default of 200; [res.status(500)] and the error placeholder,
    when the asset fetch throws.  An index fetch that throws never leads to
    the 500 by itself.  The handler calls [res.setHeader] before it sends
    fetched text only, and it asks the origin for at most two URLs.  (What
    Express then derives from this, a default Content-Type for a
    placeholder or the revalidation of a conditional request, is not part
    of the statement.) *)
Theorem asset_handler_outcomes rt w c :
  let r := (serve WIDGET_URL rt w c).1.1 in
  let name := asset_name rt (widgetFiles (serve WIDGET_URL rt w c).1.2) in
  let url := WIDGET_URL +:+ "/" +:+ name in
  ((name = EmptyString
    ∧ r = {| status := 404; contentType := None; body := not_found_body rt |}
    ∧ fetches (serve WIDGET_URL rt w c).2 = fetches (discover' w c).2)
   ∨ (name ≠ EmptyString
      ∧ ∃ text, remote w url = Some text
         ∧ r = {| status := 200; contentType := Some (mime rt);
                  body := text |}
         ∧ fetches (serve WIDGET_URL rt w c).2
           = fetches (discover' w c).2 ++ [url])
   ∨ (name ≠ EmptyString
      ∧ remote w url = None
      ∧ r = {| status := 500; contentType := None; body := error_body rt |}
      ∧ fetches (serve WIDGET_URL rt w c).2
        = fetches (discover' w c).2 ++ [url]))
  ∧ length (fetches (serve WIDGET_URL rt w c).2) ≤ 2.
Proof.
  intros r name url. subst r name url.
  assert (length (fetches (discover' w c).2) ≤ 1) as Hlen.
  { rewrite discover_fetches. by destruct (fresh c (clock w)); cbn; lia. }
  rewrite serve_cache, <- discover_returns_cache, !serve_discover.
  destruct (discover' w c) as [[files c1] e1]. cbn [fst snd] in *.
  destruct (truthy (asset_name rt files)) eqn:Hname.
  - apply truthy_nonempty in Hname.
    destruct (remote w _) as [text|] eqn:Hr; cbn [fst snd].
    + split.
      * right. left. split; [done|]. exists text.
        by rewrite fetches_app.
      * rewrite fetches_app, length_app. cbn. lia.
    + split.
      * right. right. by rewrite fetches_app.
      * rewrite fetches_app, length_app. cbn. lia.
  - apply truthy_empty in Hname. cbn [fst snd]. split.
    + left. by rewrite app_nil_r.
    + rewrite app_nil_r. lia.
Qed.

(** X16: When the cache has outlived the TTL and the index fetch throws, the
    filename cached before is still used: if the asset itself can be
    fetched the answer is the 200 with its text, the cache is exactly what
    it was (so the next request tries the index again), and the origin was
    asked for the index and then for the asset. *)
Theorem failed_rediscovery_serves_cached_name rt w c text :
  asset_name rt (widgetFiles c) ≠ EmptyString →
  (CACHE_TTL ≤ clock w - lastFetch c)%Z →
  remote w index' = None →
  remote w (WIDGET_URL +:+ "/" +:+ asset_name rt (widgetFiles c)) = Some text →
  (serve WIDGET_URL rt w c).1
  = ({| status := 200; contentType := Some (mime rt); body := text |}, c)
  ∧ fetches (serve WIDGET_URL rt w c).2
    = [index'; WIDGET_URL +:+ "/" +:+ asset_name rt (widgetFiles c)].
Proof.
  intros Hname Hage Hindex Hasset.
  assert (fresh c (clock w) = false) as Hf by (apply fresh_false; auto).
  rewrite !serve_discover, (discover_failed WIDGET_URL w c Hf Hindex).
  apply truthy_nonempty in Hname. cbv zeta. by rewrite Hname, Hasset.
Qed.

(** ** Which URLs are ever asked for *)

Lemma serve_fetches rt w c :
  let name := asset_name rt (widgetFiles (serve WIDGET_URL rt w c).1.2) in
  fetches (serve WIDGET_URL rt w c).2
  = fetches (discover' w c).2
    ++ (if truthy name then [WIDGET_URL +:+ "/" +:+ name] else []).
Proof.
  intros name. subst name.
  rewrite serve_cache, <- discover_returns_cache, !serve_discover.
  destruct (discover' w c) as [[files c1] e1]. cbn [fst snd].
  destruct (truthy (asset_name rt files)); [|by rewrite !app_nil_r].
  destruct (remote w _); cbn [snd]; by rewrite fetches_app.
Qed.

Lemma serve_names_well_formed rt w c :
  names_well_formed c → names_well_formed (serve WIDGET_URL rt w c).1.2.
Proof.
  intros [Hjs Hcss]. rewrite serve_cache.
  destruct (discover_cache w c) as [->|(html & _ & ->)]; [done|].
  split; cbn [widgetFiles js css].
  - destruct (jsMatch html) as [j|] eqn:Hj; [|done].
    right. by apply jsMatch_sound in Hj as [? _].
  - destruct (cssMatch html) as [k|] eqn:Hk; [|done].
    right. by apply cssMatch_sound in Hk as [? _].
Qed.

Lemma serve_asks_only rt w c :
  names_well_formed c →
  Forall (asset_url WIDGET_URL) (fetches (serve WIDGET_URL rt w c).2).
Proof.
  intros Hwf. apply (serve_names_well_formed rt w) in Hwf as [Hjs Hcss].
  rewrite serve_fetches, discover_fetches. apply Forall_app. split.
  - destruct (fresh c (clock w)); [constructor|].
    constructor; [by left|constructor].
  - destruct (truthy _) eqn:Hname; [|constructor].
    apply truthy_nonempty in Hname. constructor; [|constructor]. right.
    eexists. split; [|done].
    destruct rt; cbn [asset_name] in *; tauto.
Qed.

(** X17: Along every sequence of asset requests from the empty cache, in
    whatever worlds, the only URLs the server asks the origin for are the
    index page and [WIDGET_URL/name] for a [name] of the shape of one of
    the two patterns; and the cached filenames are unknown or of that
    shape.  What a page holds elsewhere never becomes part of a URL. *)
Theorem proxy_asks_only_for_index_and_widget_names reqs :
  Forall (λ out, Forall (asset_url WIDGET_URL) (fetches out.2))
    (serve_all WIDGET_URL reqs Widget.init).1
  ∧ names_well_formed (serve_all WIDGET_URL reqs Widget.init).2.
Proof.
  assert (names_well_formed Widget.init) as Hinit by (split; by left).
  revert Hinit. generalize Widget.init.
  induction reqs as [|[rt w] reqs IH]; intros c Hwf.
  - split; [constructor|done].
  - rewrite serve_all_cons. cbn [fst snd].
    destruct (IH _ (serve_names_well_formed rt w c Hwf)) as [IHout IHwf].
    split; [|done]. constructor; [|done]. by apply serve_asks_only.
Qed.

(** ** The two asset routes, from the first request on *)


End widget_resolver_more.

(** * Properties of the CORS middleware *)

Section cors_middleware.
Import Cors.

Lemma includes_contains sub s : includes sub s = true ↔ contains sub s.
Proof.
  split.
  - induction s as [|a s IH]; cbn [includes].
    + destruct (Widget.after sub EmptyString) as [r|] eqn:Hr; [|done].
      intros _. apply after_Some in Hr. by exists EmptyString, r.
    + destruct (Widget.after sub (String a s)) as [r|] eqn:Hr.
      * intros _. apply after_Some in Hr. by exists EmptyString, r.
      * intros (pre & post & ->)%IH. by exists (String a pre), post.
  - intros (pre & post & ->). induction pre as [|a pre IH].
    + change (EmptyString +:+ ?x) with x.
      destruct (sub +:+ post) eqn:Hs; cbn [includes]; rewrite <- ?Hs;
        by rewrite after_append.
    + change (String a pre +:+ ?x) with (String a (pre +:+ x)).
      cbn [includes]. by destruct (Widget.after _ _).
Qed.

(** X18: The middleware reflects an origin, and only ever the origin of the
    request itself, exactly when it is https://chatgpt.com or
    https://chat.openai.com or holds both [chatgpt-com] and
    [oaiusercontent.com] somewhere, in whatever order and whatever stands
    around them; without an Origin header nothing is reflected.  The two
    other headers are set on every request, and no header is set twice. *)
Theorem cors_reflects_listed_origins_only req :
  (∀ v, ("Access-Control-Allow-Origin", v) ∈ cors_headers req
        ↔ origin req = Some v
          ∧ (v = "https://chatgpt.com" ∨ v = "https://chat.openai.com"
             ∨ contains "chatgpt-com" v ∧ contains "oaiusercontent.com" v))
  ∧ ("Access-Control-Allow-Methods", "GET, POST, OPTIONS") ∈ cors_headers req
  ∧ ("Access-Control-Allow-Headers", "Content-Type") ∈ cors_headers req
  ∧ NoDup (cors_headers req).*1
  ∧ length (cors_headers req) ≤ 3.
Proof.
  assert (∀ v, origin_allowed (Some v) = true
               ↔ v = "https://chatgpt.com" ∨ v = "https://chat.openai.com"
                 ∨ contains "chatgpt-com" v ∧ contains "oaiusercontent.com" v)
    as Hallowed.
  { intros v. unfold origin_allowed.
    rewrite andb_true_iff, !orb_true_iff, andb_true_iff, !String.eqb_eq,
      !includes_contains, truthy_nonempty.
    split; [tauto|]. intros H. split; [|tauto].
    destruct H as [->|[->|[(pre & post & ->) _]]]; [done..|].
    by destruct pre. }
  unfold cors_headers. destruct req as [m [o|]]; cbn [origin default].
  - specialize (Hallowed o). destruct (origin_allowed (Some o)).
    + split_and!.
      * intros v. rewrite elem_of_app, !elem_of_cons, elem_of_nil.
        split.
        -- intros [[[= <-]|[]]|[[=]|[[=]|[]]]]. split; [done|]. by apply Hallowed.
        -- intros [[= <-] _]. by do 2 left.
      * cbn. do 1 apply list_elem_of_further. apply list_elem_of_here.
      * cbn. do 2 apply list_elem_of_further. apply list_elem_of_here.
      * cbn. apply (bool_decide_unpack _). by vm_compute.
      * cbn. lia.
    + split_and!.
      * intros v. rewrite elem_of_app, !elem_of_cons, elem_of_nil.
        split.
        -- intros [[]|[[=]|[[=]|[]]]].
        -- intros [[= <-] Hv]. apply Hallowed in Hv. done.
      * cbn. apply list_elem_of_here.
      * cbn. do 1 apply list_elem_of_further. apply list_elem_of_here.
      * cbn. apply (bool_decide_unpack _). by vm_compute.
      * cbn. lia.
  - cbn [origin_allowed]. split_and!.
    + intros v. rewrite elem_of_app, !elem_of_cons, elem_of_nil.
      split; [intros [[]|[[=]|[[=]|[]]]]|by intros [[=] _]].
    + cbn. apply list_elem_of_here.
    + cbn. do 1 apply list_elem_of_further. apply list_elem_of_here.
    + cbn. apply (bool_decide_unpack _). by vm_compute.
    + cbn. lia.
Qed.

(** An OPTIONS request is answered by the middleware: the handler behind it
    is not run, so nothing is fetched and the cache is not touched. *)
Lemma cors_options {A} req (next : Widget.M A) w c :
  method req = "OPTIONS" →
  cors req next w c = ((cors_headers req, SendStatus 200), c, []).
Proof. intros Hm. unfold cors. by rewrite Hm. Qed.

End cors_middleware.

(** * The further theorems at concrete pages, caches and worlds *)

Section more_instances.
Import Widget Patterns.

Lemma patterns_capture_only_widget_names_witness :
  hashed_name "js" "widget-abc123.js"
  ∧ occurs_as "src" "widget-abc123.js" (link_tag +:+ script_tag)
  ∧ "widget-abc123.js" ≠ EmptyString.
Proof.
  apply (patterns_capture_only_widget_names (link_tag +:+ script_tag)
           "widget-abc123.js").
  reflexivity.
Defined.

Lemma patterns_miss_no_widget_name_witness : is_Some (jsMatch script_tag).
Proof.
  apply (patterns_miss_no_widget_name script_tag "widget-abc123.js").
  - right. exists "abc123". split; [done|]. split; reflexivity.
  - exists ("<script type=" +:+ dq +:+ "module" +:+ dq +:+ " "),
      "></script>". reflexivity.
Defined.

Lemma failed_rediscovery_serves_cached_name_witness :
  (serve origin RouteJs (world_index_down 100000) cache_both).1
  = ({| status := 200; contentType := Some (mime RouteJs);
        body := "console.log(1)" |}, cache_both)
  ∧ fetches (serve origin RouteJs (world_index_down 100000) cache_both).2
    = [index_url origin;
       origin +:+ "/" +:+ asset_name RouteJs (widgetFiles cache_both)].
Proof.
  apply (failed_rediscovery_serves_cached_name origin RouteJs
           (world_index_down 100000) cache_both "console.log(1)");
    [done|by vm_compute|reflexivity|reflexivity].
Defined.

Example cors_on_samples :
  Cors.cors_headers {| Cors.method := "GET";
                       Cors.origin := Some "https://chatgpt.com" |}
  = [("Access-Control-Allow-Origin", "https://chatgpt.com");
     ("Access-Control-Allow-Methods", "GET, POST, OPTIONS");
     ("Access-Control-Allow-Headers", "Content-Type")]
  ∧ Cors.origin_allowed
      (Some "https://x-chatgpt-com.web-sandbox.oaiusercontent.com") = true
  ∧ Cors.origin_allowed (Some "https://chatgpt.com.example.org") = false
  ∧ Cors.origin_allowed (Some "http://chatgpt.com") = false
  ∧ Cors.origin_allowed None = false.
Proof. vm_compute. by split_and!. Qed.


End more_instances.
